(** * gymgee: the project-skeleton builder [struct.py]

    The script walks a hard-coded nested description of folder and file
    names and creates, under the current working directory, a directory
    for every dict- or list-valued entry and an empty file for every
    [None]-valued entry and every name of a list, printing one notice per
    entry and a completion message at the end.

    The embedding is shallow.  The Python function [create_structure] is a
    Rocq function in a state-and-exception monad over a [world] made of
    the filesystem (a finite map from absolute paths to nodes) and the
    chronological log of the effectful calls that returned ([mkdir],
    [touch], [print]).

    Scope of the filesystem model.  [Path.mkdir], [Path.touch] and the
    [/] operator belong to CPython's [pathlib], not to this repository;
    they are modelled after the library's code on a POSIX system:
    - a path is the list of its components below the root [/], and
      [base / name] appends [name] as one component, which is what pathlib
      does for a name that is a single component (non-empty, without a
      slash, neither [.] nor [..]); every name of the shipped description
      is one ([wf_structure]);
    - permissions, quotas, length limits, names the system refuses (a
      NUL byte, too many bytes), symbolic links and timestamps are not
      modelled: every directory is writable, [os.utime] succeeds on every
      entry, and a [touch] of an existing entry, which only bumps its
      modification time, leaves the map as it is.  The errors of the
      model are therefore the type and missing-parent errors only; no
      statement below says that these are all the errors of a real
      system. *)

From Stdlib Require Import Strings.Ascii.
From stdpp Require Import gmap strings list fin_maps.

Open Scope string_scope.
Open Scope list_scope.

(** ** Paths *)

Abbreviation Path := (list string).

(** [base_path / name] *)
Definition truediv (base_path : Path) (name : string) : Path :=
  base_path ++ [name].

Notation "p </> n" := (truediv p n) (at level 40, left associativity).

(** [path.parent]; the root is its own parent. *)
Definition parent (p : Path) : Path := take (length p - 1) p.

Arguments truediv : simpl never.
Arguments parent : simpl never.

Fixpoint join (p : Path) : string :=
  match p with
  | [] => ""
  | c :: r => "/" +:+ c +:+ join r
  end.

(** [str(path)] of an absolute POSIX path. *)
Definition str (p : Path) : string :=
  match p with
  | [] => "/"
  | _ => join p
  end.

(** A name that is a single path component. *)
Fixpoint has_slash (s : string) : bool :=
  match s with
  | EmptyString => false
  | String c r => if Ascii.eqb c "/"%char then true else has_slash r
  end.

Definition simple_name (s : string) : bool :=
  negb (has_slash s)
  && negb (String.eqb s "") && negb (String.eqb s ".")
  && negb (String.eqb s "..").

(** ** The filesystem and the world *)

Inductive node : Type :=
| Dir
| File (data : list Byte.byte).

Inductive OSError : Type :=
| FileExistsError (p : Path)
| FileNotFoundError (p : Path)
| NotADirectoryError (p : Path)
| IsADirectoryError (p : Path).

(** The two creation calls of the script. *)
Inductive call : Type :=
| Mkdir (p : Path)
| Touch (p : Path).

(** What the process did: a creation call that returned, or a string
    handed to [print]. *)
Inductive event : Type :=
| Called (c : call)
| Printed (s : string).

Record world : Type := World {
  fs : gmap Path node;
  log : list event
}.

Definition record (e : event) (w : world) : world :=
  {| fs := fs w; log := log w ++ [e] |}.

(** The root is a directory and every entry lies in a directory. *)
Definition fs_ok (m : gmap Path node) : Prop :=
  m !! [] = Some Dir ∧
  ∀ p n, m !! p = Some n → m !! parent p = Some Dir.

(** ** The monad: state with exceptions

    A raised exception carries the world at the point of the raise:
    nothing is rolled back. *)

Inductive result (A : Type) : Type :=
| Ok (a : A) (w : world)
| Raise (e : OSError) (w : world).

Arguments Ok {A} a w.
Arguments Raise {A} e w.

Definition M (A : Type) : Type := world → result A.

Definition ret {A} (a : A) : M A := fun w => Ok a w.

Definition bind {A B} (c : M A) (k : A → M B) : M B :=
  fun w =>
    match c w with
    | Ok a w' => k a w'
    | Raise e w' => Raise e w'
    end.

Arguments bind : simpl never.
Arguments ret : simpl never.

Declare Scope walk_scope.
Delimit Scope walk_scope with walk.
Notation "c1 ;; c2" := (bind c1 (fun _ => c2))
  (at level 100, c2 at level 200, right associativity) : walk_scope.
Open Scope walk_scope.

Definition final {A} (r : result A) : world :=
  match r with
  | Ok _ w => w
  | Raise _ w => w
  end.

Definition succeeded {A} (r : result A) : bool :=
  match r with
  | Ok _ _ => true
  | Raise _ _ => false
  end.

(** [for x in l: body(x)] *)
Fixpoint for_each {A} (l : list A) (body : A → M unit) : M unit :=
  match l with
  | [] => ret tt
  | x :: r => body x ;; for_each r body
  end.

(** ** pathlib and os primitives *)

Definition is_dir (m : gmap Path node) (p : Path) : bool :=
  match m !! p with
  | Some Dir => true
  | _ => false
  end.

(** [os.mkdir(p)] *)
Definition os_mkdir (p : Path) (m : gmap Path node)
  : OSError + gmap Path node :=
  match m !! p with
  | Some _ => inl (FileExistsError p)
  | None =>
      match m !! parent p with
      | Some Dir => inr (<[p := Dir]> m)
      | Some (File _) => inl (NotADirectoryError p)
      | None => inl (FileNotFoundError p)
      end
  end.

(** [os.utime(p, None)]: succeeds on any existing entry. *)
Definition os_utime (p : Path) (m : gmap Path node) : option OSError :=
  match m !! p with
  | Some _ => None
  | None => Some (FileNotFoundError p)
  end.

(** [os.open(p, O_CREAT | O_WRONLY)] then [os.close]: no [O_TRUNC]. *)
Definition os_open_creat (p : Path) (m : gmap Path node)
  : OSError + gmap Path node :=
  match m !! p with
  | Some (File _) => inr m
  | Some Dir => inl (IsADirectoryError p)
  | None =>
      match m !! parent p with
      | Some Dir => inr (<[p := File []]> m)
      | Some (File _) => inl (NotADirectoryError p)
      | None => inl (FileNotFoundError p)
      end
  end.

(** [path.mkdir(exist_ok=True)]: pathlib calls [os.mkdir]; a
    [FileNotFoundError] is re-raised ([parents] is false), any other
    [OSError] is swallowed when the path is a directory. *)
Definition Path_mkdir (p : Path) : M unit :=
  fun w =>
    match os_mkdir p (fs w) with
    | inr m' => Ok tt (record (Called (Mkdir p)) {| fs := m'; log := log w |})
    | inl (FileNotFoundError q) => Raise (FileNotFoundError q) w
    | inl e => if is_dir (fs w) p then Ok tt (record (Called (Mkdir p)) w)
               else Raise e w
    end.

(** [path.touch()]: pathlib first tries [os.utime]; when that fails it
    opens the file with [O_CREAT]. *)
Definition Path_touch (p : Path) : M unit :=
  fun w =>
    match os_utime p (fs w) with
    | None => Ok tt (record (Called (Touch p)) w)
    | Some _ =>
        match os_open_creat p (fs w) with
        | inr m' => Ok tt (record (Called (Touch p)) {| fs := m'; log := log w |})
        | inl e => Raise e w
        end
    end.

(** [print(s)] *)
Definition print (s : string) : M unit :=
  fun w => Ok tt (record (Printed s) w).

(** ** The description *)

(** A value that is neither [None], a dict nor a list. *)
Inductive scalar : Type :=
| SStr (s : string)
| SInt (z : Z)
| SBool (b : bool).

(** The values of the description and the dict itself, whose items are
    kept in insertion order.  List items are strings, as in the shipped
    description. *)
Inductive content : Type :=
| CNone
| CDict (d : dict)
| CList (l : list string)
| COther (v : scalar)
with dict : Type :=
| DNil
| DCons (name : string) (c : content) (rest : dict).

Scheme content_dict_ind := Induction for content Sort Prop
  with dict_content_ind := Induction for dict Sort Prop.

Fixpoint items (d : dict) : list (string * content) :=
  match d with
  | DNil => []
  | DCons name c rest => (name, c) :: items rest
  end.

Fixpoint mk (l : list (string * content)) : dict :=
  match l with
  | [] => DNil
  | (name, c) :: r => DCons name c (mk r)
  end.

Definition keys (d : dict) : list string := (items d).*1.

(** ** [create_structure] *)

Definition file_notice (p : Path) : string := "Created file: " +:+ str p.
Definition directory_notice (p : Path) : string :=
  "Created directory: " +:+ str p.

Fixpoint create_structure (base_path : Path) (structure : dict)
  {struct structure} : M unit :=
  match structure with
  | DNil => ret tt
  | DCons name content rest =>
      let path := base_path </> name in
      match content with
      | CNone =>
          Path_touch path ;;
          print (file_notice path)
      | CDict d =>
          Path_mkdir path ;;
          print (directory_notice path) ;;
          create_structure path d
      | CList l =>
          Path_mkdir path ;;
          print (directory_notice path) ;;
          for_each l (fun file_name =>
            let file_path := path </> file_name in
            Path_touch file_path ;;
            print (file_notice file_path))
      | COther _ => ret tt
      end ;;
      create_structure base_path rest
  end.

(** ** The script *)

Definition structure : dict :=
  mk [("lib", CDict (mk [
    ("core", CDict (mk [
      ("constants", CList [
        "app_constants.dart";
        "app_strings.dart";
        "app_theme.dart"
      ]);
      ("errors", CList [
        "exceptions.dart";
        "failures.dart"
      ]);
      ("network", CList [
        "network_info.dart";
        "api_client.dart"
      ]);
      ("utils", CList [
        "date_formatter.dart";
        "validators.dart";
        "analytics_helper.dart"
      ]);
      ("widgets", CDict (mk [
        ("buttons", CList []);
        ("cards", CList []);
        ("dialogs", CList []);
        ("loaders", CList [])
      ]))
    ]));
    ("data", CDict (mk [
      ("datasources", CDict (mk [
        ("local", CList [
          "app_database.dart";
          "workout_local_datasource.dart";
          "user_local_datasource.dart"
        ]);
        ("remote", CList [
          "workout_remote_datasource.dart";
          "user_remote_datasource.dart"
        ])
      ]));
      ("models", CList [
        "exercise_model.dart";
        "workout_model.dart";
        "workout_log_model.dart";
        "user_model.dart";
        "personal_record_model.dart"
      ]);
      ("repositories", CList [
        "workout_repository_impl.dart";
        "exercise_repository_impl.dart";
        "user_repository_impl.dart"
      ])
    ]));
    ("domain", CDict (mk [
      ("entities", CList [
        "exercise.dart";
        "workout.dart";
        "workout_log.dart";
        "user.dart";
        "personal_record.dart"
      ]);
      ("repositories", CList [
        "workout_repository.dart";
        "exercise_repository.dart";
        "user_repository.dart"
      ]);
      ("usecases", CDict (mk [
        ("workout", CList [
          "get_workout_history.dart";
          "log_workout.dart";
          "get_personal_records.dart"
        ]);
        ("user", CList [
          "get_user.dart";
          "update_user.dart"
        ])
      ]))
    ]));
    ("presentation", CDict (mk [
      ("bloc", CDict (mk [
        ("workout", CList [
          "workout_bloc.dart";
          "workout_event.dart";
          "workout_state.dart"
        ]);
        ("exercise", CList [
          "exercise_bloc.dart";
          "exercise_event.dart";
          "exercise_state.dart"
        ]);
        ("timer", CList [
          "timer_bloc.dart";
          "timer_event.dart";
          "timer_state.dart"
        ])
      ]));
      ("pages", CDict (mk [
        ("home", CDict (mk [
          ("home_page.dart", CNone);
          ("widgets", CList [])
        ]));
        ("workout", CDict (mk [
          ("workout_list_page.dart", CNone);
          ("workout_detail_page.dart", CNone);
          ("workout_in_progress_page.dart", CNone);
          ("widgets", CList [])
        ]));
        ("stats", CDict (mk [
          ("stats_dashboard_page.dart", CNone);
          ("widgets", CList [])
        ]));
        ("history", CDict (mk [
          ("workout_history_page.dart", CNone);
          ("widgets", CList [])
        ]));
        ("profile", CDict (mk [
          ("profile_page.dart", CNone);
          ("widgets", CList [])
        ]))
      ]));
      ("widgets", CList [
        "exercise_card.dart";
        "workout_timer.dart";
        "set_tracker.dart";
        "progress_chart.dart"
      ])
    ]));
    ("config", CDict (mk [
      ("routes", CList [
        "app_router.dart";
        "route_names.dart"
      ]);
      ("injection", CList [
        "dependency_injection.dart"
      ])
    ]));
    ("app.dart", CNone);
    ("main.dart", CNone)
  ]))].

Definition newline : ascii := "010"%char.

Definition completion_line : string :=
  "Directory structure created successfully!".

(** The argument of the last [print]: it starts with a line feed. *)
Definition completion_message : string := String newline completion_line.

(** The module body after the definitions, for a working directory
    [current_dir] (the value of [Path.cwd()]) and a description. *)
Definition script (current_dir : Path) (description : dict) : M unit :=
  create_structure current_dir description ;;
  print completion_message.

Definition main (current_dir : Path) : M unit :=
  script current_dir structure.

(** ** Standard output *)

(** [print] writes its argument and a line feed. *)
Fixpoint stdout_of (l : list event) : string :=
  match l with
  | [] => ""
  | Printed s :: r => s +:+ String newline (stdout_of r)
  | Called _ :: r => stdout_of r
  end.

Definition stdout (w : world) : string := stdout_of (log w).

(** The lines of a text, as [str.splitlines] cuts them at line feeds. *)
Fixpoint splitlines_from (cur : string) (s : string) : list string :=
  match s with
  | EmptyString => if String.eqb cur "" then [] else [cur]
  | String c r =>
      if Ascii.eqb c newline then cur :: splitlines_from "" r
      else splitlines_from (cur +:+ String c "") r
  end.

Definition splitlines (s : string) : list string := splitlines_from "" s.

(** ** The plan of a walk

    The creation calls a walk issues when none fails, in order: it
    depends on the description and the base path only. *)

Definition touch_all (path : Path) (l : list string) : list call :=
  (fun file_name => Touch (path </> file_name)) <$> l.

Fixpoint plan (base_path : Path) (structure : dict) : list call :=
  match structure with
  | DNil => []
  | DCons name content rest =>
      let path := base_path </> name in
      match content with
      | CNone => [Touch path]
      | CDict d => Mkdir path :: plan path d
      | CList l => Mkdir path :: touch_all path l
      | COther _ => []
      end ++ plan base_path rest
  end.

Global Instance call_eq_dec : EqDecision call.
Proof. solve_decision. Defined.

Definition target (c : call) : Path :=
  match c with
  | Mkdir p => p
  | Touch p => p
  end.

Definition notice (c : call) : string :=
  match c with
  | Mkdir p => directory_notice p
  | Touch p => file_notice p
  end.

Definition perform (c : call) : M unit :=
  match c with
  | Mkdir p => Path_mkdir p
  | Touch p => Path_touch p
  end.

(** The error a call raises on a filesystem, if any. *)
Definition blocked (c : call) (m : gmap Path node) : option OSError :=
  match c with
  | Mkdir p =>
      match m !! p with
      | Some Dir => None
      | Some (File _) => Some (FileExistsError p)
      | None =>
          match m !! parent p with
          | Some Dir => None
          | Some (File _) => Some (NotADirectoryError p)
          | None => Some (FileNotFoundError p)
          end
      end
  | Touch p =>
      match m !! p with
      | Some _ => None
      | None =>
          match m !! parent p with
          | Some Dir => None
          | Some (File _) => Some (NotADirectoryError p)
          | None => Some (FileNotFoundError p)
          end
      end
  end.

(** What a call that returns leaves on the filesystem: a new entry when
    the path was free, nothing otherwise. *)
Definition effect (c : call) (m : gmap Path node) : gmap Path node :=
  match c with
  | Mkdir p =>
      match m !! p with
      | Some _ => m
      | None => <[p := Dir]> m
      end
  | Touch p =>
      match m !! p with
      | Some _ => m
      | None => <[p := File []]> m
      end
  end.

Definition replay (cs : list call) (m : gmap Path node) : gmap Path node :=
  foldl (fun m c => effect c m) m cs.

(** A call and its notice. *)
Definition step (c : call) : M unit := perform c ;; print (notice c).

Definition run_calls (cs : list call) : M unit := for_each cs step.

(** The log entries of a list of calls that all returned. *)
Definition announced (cs : list call) : list event :=
  cs ≫= (fun c => [Called c; Printed (notice c)]).

(** The scenario of the specification. *)
Definition scenario : dict :=
  mk [("a", CDict (mk [("b", CList ["c.txt"])]))].

(** ** Sample worlds *)

(** Only the root directory exists. *)
Definition empty_root : world := {| fs := {[ [] := Dir ]}; log := [] |}.

(** Under the root, [lib] exists, [lib/main.dart] is a directory and
    [lib/app.dart] holds three bytes. *)
Definition occupied : world :=
  {| fs := {[ [] := Dir;
              ["lib"] := Dir;
              ["lib"; "main.dart"] := Dir;
              ["lib"; "app.dart"] := File [Byte.x61; Byte.x62; Byte.x63] ]};
     log := [] |}.

(** Under the root, [lib] is a file. *)
Definition lib_is_file : world :=
  {| fs := {[ [] := Dir; ["lib"] := File [Byte.x61] ]}; log := [] |}.

(** ** Sample descriptions *)



(** ** Well-formed descriptions

    The keys of a Python dict are pairwise distinct; the names are single
    path components. *)

Definition mem (s : string) (l : list string) : bool :=
  existsb (String.eqb s) l.

Fixpoint wf_dict (d : dict) : bool :=
  match d with
  | DNil => true
  | DCons name c rest =>
      simple_name name && negb (mem name (keys rest))
      && match c with
         | CDict d' => wf_dict d'
         | CList l => forallb simple_name l
         | _ => true
         end
      && wf_dict rest
  end.

(** ** Vocabulary of the statements *)

(** The calls that return: the longest prefix none of whose calls is
    blocked when its turn comes. *)
Fixpoint completed (cs : list call) (m : gmap Path node) : list call :=
  match cs with
  | [] => []
  | c :: r =>
      match blocked c m with
      | Some _ => []
      | None => c :: completed r (effect c m)
      end
  end.

(** The node a call makes when its path is free. *)
Definition made (c : call) : node :=
  match c with
  | Mkdir _ => Dir
  | Touch _ => File []
  end.

(** A call that finds its work done: it returns and changes nothing. *)
Definition settled (c : call) (m : gmap Path node) : Prop :=
  match c with
  | Mkdir p => m !! p = Some Dir
  | Touch p => is_Some (m !! p)
  end.

(** Nothing lies below the base path. *)
Definition empty_below (base_path : Path) (m : gmap Path node) : Prop :=
  ∀ name s, m !! (base_path ++ name :: s) = None.

(** No path is wanted both as a directory and as a file. *)
Definition consistent (cs : list call) : Prop :=
  ∀ p, Mkdir p ∈ cs → Touch p ∈ cs → False.

(** A call moved below a base path. *)
Definition relocate (base_path : Path) (c : call) : call :=
  match c with
  | Mkdir p => Mkdir (base_path ++ p)
  | Touch p => Touch (base_path ++ p)
  end.

(** The directories of the shipped description whose list is empty. *)
Definition empty_directories : list Path :=
  [["lib"; "core"; "widgets"; "buttons"];
   ["lib"; "core"; "widgets"; "cards"];
   ["lib"; "core"; "widgets"; "dialogs"];
   ["lib"; "core"; "widgets"; "loaders"];
   ["lib"; "presentation"; "pages"; "home"; "widgets"];
   ["lib"; "presentation"; "pages"; "workout"; "widgets"];
   ["lib"; "presentation"; "pages"; "stats"; "widgets"];
   ["lib"; "presentation"; "pages"; "history"; "widgets"];
   ["lib"; "presentation"; "pages"; "profile"; "widgets"]].

(** The size of the file at a path. *)
Definition file_size (m : gmap Path node) (p : Path) : option nat :=
  match m !! p with
  | Some (File data) => Some (length data)
  | _ => None
  end.

(** The text of a list of lines, each ended by a line feed. *)
Definition unlines (l : list string) : string :=
  foldr (fun s acc => s +:+ String newline acc) "" l.

(** ** The claims that fail, as they are stated *)

(** Completeness: after a run that returned, every path of the plan holds
    a directory, for a [Mkdir], or an empty file, for a [Touch]. *)
Definition completeness_as_stated (cwd : Path) (w : world) : Prop :=
  ∀ w', create_structure cwd structure w = Ok tt w' →
    ∀ c, c ∈ plan cwd structure → fs w' !! target c = Some (made c).

(** Type collisions: the walk raises as soon as a path wanted as a
    directory holds a file or a path wanted as a file holds a
    directory. *)
Definition collision_as_stated (base_path : Path) (d : dict) (w : world)
  : Prop :=
  ∀ c, c ∈ plan base_path d →
    match c with
    | Mkdir p => ∃ data, fs w !! p = Some (File data)
    | Touch p => fs w !! p = Some Dir
    end →
    succeeded (create_structure base_path d w) = false.

(** Output: the lines of standard output are the notices, one per call,
    and then the completion line. *)
Definition output_as_stated (cwd : Path) (w : world) : Prop :=
  succeeded (main cwd w) = true →
  splitlines (stdout (final (main cwd w)))
  = (notice <$> plan cwd structure) ++ [completion_line].

(** * Properties *)

(** ** The monad *)

Section Monad.
Context {A : Type}.

Lemma bind_assoc (c1 c2 c3 : M A) w :
  ((c1 ;; c2) ;; c3) w = (c1 ;; c2 ;; c3) w.
Proof. unfold bind. by destruct (c1 w). Qed.

Lemma bind_ext_l (c1 c1' c2 : M A) w :
  c1 w = c1' w → (c1 ;; c2) w = (c1' ;; c2) w.
Proof. unfold bind. by intros ->. Qed.

Lemma bind_ext_r (c1 c2 c2' : M A) w :
  (∀ w', c2 w' = c2' w') → (c1 ;; c2) w = (c1 ;; c2') w.
Proof. unfold bind. intros H. by destruct (c1 w). Qed.
End Monad.

Lemma bind_ret_r (c : M unit) w : (c ;; ret tt) w = c w.
Proof. unfold bind, ret. by destruct (c w) as [[] ?|]. Qed.

Lemma for_each_app {A} (l1 l2 : list A) (body : A → M unit) w :
  for_each (l1 ++ l2) body w = (for_each l1 body ;; for_each l2 body) w.
Proof.
  revert w. induction l1 as [|x l1 IH]; intros w; simpl.
  - reflexivity.
  - rewrite bind_assoc. by apply bind_ext_r.
Qed.

Lemma for_each_fmap {A B} (f : A → B) (l : list A) (body : B → M unit) w :
  for_each (f <$> l) body w = for_each l (fun x => body (f x)) w.
Proof.
  revert w. induction l as [|x l IH]; intros w; simpl; [done|].
  by apply bind_ext_r.
Qed.

(** ** The walk issues the calls of its plan *)

Lemma run_calls_app cs1 cs2 w :
  run_calls (cs1 ++ cs2) w = (run_calls cs1 ;; run_calls cs2) w.
Proof. apply for_each_app. Qed.

Lemma create_structure_plan d :
  ∀ base_path w,
    create_structure base_path d w = run_calls (plan base_path d) w.
Proof.
  induction d using dict_content_ind with
    (P := fun c => match c with
                   | CDict d => ∀ base_path w,
                       create_structure base_path d w
                       = run_calls (plan base_path d) w
                   | _ => True
                   end); try done.
  intros base_path w. cbn [create_structure plan].
  rewrite run_calls_app.
  etransitivity; [|by apply bind_ext_r, IHd0].
  apply bind_ext_l.
  destruct c as [|d'|l|v]; cbn; unfold step; cbn [perform notice].
  - by rewrite bind_ret_r.
  - rewrite bind_assoc. do 2 (apply bind_ext_r; intros ?). apply IHd.
  - rewrite bind_assoc. do 2 (apply bind_ext_r; intros ?).
    unfold touch_all. by rewrite for_each_fmap.
  - reflexivity.
Qed.

(** ** One call *)

Lemma perform_blocked c w :
  perform c w =
    match blocked c (fs w) with
    | Some e => Raise e w
    | None => Ok tt {| fs := effect c (fs w); log := log w ++ [Called c] |}
    end.
Proof.
  destruct c as [p|p]; cbn.
  - unfold Path_mkdir, os_mkdir, is_dir, record.
    destruct (fs w !! p) as [[|data]|] eqn:Hp; cbn; try done.
    by destruct (fs w !! parent p) as [[|data]|].
  - unfold Path_touch, os_utime, os_open_creat, record.
    destruct (fs w !! p) as [[|data]|] eqn:Hp; cbn; try done.
    by destruct (fs w !! parent p) as [[|data]|].
Qed.

Lemma step_blocked c w :
  step c w =
    match blocked c (fs w) with
    | Some e => Raise e w
    | None => Ok tt {| fs := effect c (fs w);
                       log := log w ++ announced [c] |}
    end.
Proof.
  unfold step, bind. rewrite perform_blocked.
  destruct (blocked c (fs w)); [done|].
  unfold print, record; cbn. by rewrite <- app_assoc.
Qed.

Lemma effect_lookup c m q :
  effect c m !! q = m !! q ∨
  (m !! q = None ∧ q = target c ∧
   effect c m !! q = Some match c with
                          | Mkdir _ => Dir
                          | Touch _ => File []
                          end).
Proof.
  destruct c as [p|p]; cbn; destruct (m !! p) eqn:Hp; auto;
    destruct (decide (p = q)) as [->|Hne];
    rewrite ?lookup_insert_eq, ?lookup_insert_ne by done; auto.
Qed.

Lemma effect_mono c m : m ⊆ effect c m.
Proof.
  destruct c as [p|p]; cbn; destruct (m !! p) eqn:Hp; try done;
    by apply insert_subseteq.
Qed.

Lemma replay_mono cs m : m ⊆ replay cs m.
Proof.
  revert m. induction cs as [|c cs IH]; intros m; cbn; [done|].
  etransitivity; [apply effect_mono|apply IH].
Qed.

Lemma replay_app cs1 cs2 m :
  replay (cs1 ++ cs2) m = replay cs2 (replay cs1 m).
Proof. apply foldl_app. Qed.

(** ** The outcome of a list of calls *)

Lemma run_calls_cons c cs w :
  run_calls (c :: cs) w =
    match blocked c (fs w) with
    | Some e => Raise e w
    | None => run_calls cs {| fs := effect c (fs w);
                              log := log w ++ announced [c] |}
    end.
Proof.
  unfold run_calls; cbn [for_each]. unfold bind at 1.
  rewrite step_blocked. by destruct (blocked c (fs w)).
Qed.

Lemma announced_cons c cs : announced (c :: cs) = announced [c] ++ announced cs.
Proof. reflexivity. Qed.

Lemma announced_app cs1 cs2 :
  announced (cs1 ++ cs2) = announced cs1 ++ announced cs2.
Proof. unfold announced. apply bind_app. Qed.

Lemma run_calls_final cs w :
  final (run_calls cs w) =
    {| fs := replay (completed cs (fs w)) (fs w);
       log := log w ++ announced (completed cs (fs w)) |}.
Proof.
  revert w. induction cs as [|c cs IH]; intros w.
  - cbn. destruct w; cbn. by rewrite app_nil_r.
  - rewrite run_calls_cons. cbn [completed].
    destruct (blocked c (fs w)) eqn:Hb.
    + cbn. destruct w; cbn. by rewrite app_nil_r.
    + rewrite IH. cbn [fs log replay foldl].
      rewrite (announced_cons c (completed _ _)), app_assoc. reflexivity.
Qed.

Lemma run_calls_Ok cs w :
  succeeded (run_calls cs w) = true ↔ completed cs (fs w) = cs.
Proof.
  revert w. induction cs as [|c cs IH]; intros w.
  - done.
  - rewrite run_calls_cons. cbn [completed].
    destruct (blocked c (fs w)) eqn:Hb; [done|].
    rewrite IH. cbn [fs]. split; [by intros ->|congruence].
Qed.

Lemma run_calls_Raise cs w e w' :
  run_calls cs w = Raise e w' →
  ∃ c rest, cs = completed cs (fs w) ++ c :: rest
            ∧ blocked c (fs w') = Some e.
Proof.
  revert w. induction cs as [|c cs IH]; intros w.
  - done.
  - rewrite run_calls_cons. cbn [completed].
    destruct (blocked c (fs w)) eqn:Hb.
    + intros [= <- <-]. by exists c, cs.
    + intros (c' & rest & Hcs & Hc')%IH. cbn [fs] in Hcs.
      exists c', rest. split; [|done]. cbn. by f_equal.
Qed.

Lemma completed_prefix cs m : completed cs m `prefix_of` cs.
Proof.
  revert m. induction cs as [|c cs IH]; intros m; cbn; [done|].
  destruct (blocked c m); [apply prefix_nil|]. by apply prefix_cons.
Qed.

(** ** Induction on descriptions *)

Lemma dict_nested_ind (Q : dict → Prop) :
  Q DNil →
  (∀ name c rest,
     (∀ d', c = CDict d' → Q d') → Q rest → Q (DCons name c rest)) →
  ∀ d, Q d.
Proof.
  intros Hnil Hcons d.
  induction d using dict_content_ind with
    (P := fun c => ∀ d', c = CDict d' → Q d'); try done.
  - by intros d' [= <-].
  - by apply Hcons.
Qed.

(** ** The shape of a plan *)

Lemma mem_elem_of s l : mem s l = true ↔ s ∈ l.
Proof.
  unfold mem. rewrite existsb_exists. setoid_rewrite String.eqb_eq.
  setoid_rewrite <- list_elem_of_In.
  split; [by intros (x & ? & ->)|by exists s].
Qed.

Lemma plan_cons base_path name c rest :
  plan base_path (DCons name c rest)
  = plan base_path (DCons name c DNil) ++ plan base_path rest.
Proof. cbn. by rewrite app_nil_r. Qed.

(** Every call of a plan aims below the base path, through a key of the
    dict. *)
Lemma plan_target d :
  ∀ base_path c, c ∈ plan base_path d →
    ∃ name s, name ∈ keys d ∧ target c = base_path ++ name :: s.
Proof.
  induction d as [|name c rest IHc IHrest] using dict_nested_ind;
    intros base_path c0; cbn [plan].
  - by intros ?%elem_of_nil.
  - rewrite elem_of_app. intros [Hin|Hin].
    + exists name. cbn. setoid_rewrite elem_of_cons.
      destruct c as [|d'|l|v].
      * apply list_elem_of_singleton in Hin as ->. by exists []; auto.
      * apply elem_of_cons in Hin as [->|Hin]; [by exists []; auto|].
        apply (IHc d' eq_refl) in Hin as (n' & s & _ & ->).
        exists (n' :: s). split; [auto|]. unfold truediv.
        by rewrite <- app_assoc.
      * apply elem_of_cons in Hin as [->|Hin]; [by exists []; auto|].
        apply list_elem_of_fmap in Hin as (f & -> & _).
        exists [f]. split; [auto|]. unfold truediv; cbn.
        by rewrite <- app_assoc.
      * by apply elem_of_nil in Hin.
    + apply IHrest in Hin as (n' & s & Hn' & ->).
      exists n', s. split; [|done]. cbn. by apply elem_of_cons; right.
Qed.

Lemma plan_target_entry base_path name c c0 :
  c0 ∈ plan base_path (DCons name c DNil) →
  ∃ s, target c0 = base_path ++ name :: s.
Proof.
  intros (n & s & Hn & ->)%plan_target. exists s.
  cbn in Hn. by apply list_elem_of_singleton in Hn as ->.
Qed.

Lemma plan_target_ne base_path d c :
  c ∈ plan base_path d → target c ≠ base_path.
Proof.
  intros (n & s & _ & ->)%plan_target Heq.
  apply (f_equal length) in Heq. rewrite length_app in Heq. cbn in Heq. lia.
Qed.

Lemma wf_dict_cons name c rest :
  wf_dict (DCons name c rest) = true →
  (name ∉ keys rest) ∧ wf_dict (DCons name c DNil) = true
  ∧ wf_dict rest = true.
Proof.
  cbn. rewrite !andb_true_iff, negb_true_iff.
  intros [[[Hs Hm] Hc] Hr]. split_and!; try done.
  rewrite <- mem_elem_of. congruence.
Qed.

(** No path is asked for both as a directory and as a file. *)
Lemma plan_consistent d :
  ∀ base_path p, wf_dict d = true →
    Mkdir p ∈ plan base_path d → Touch p ∈ plan base_path d → False.
Proof.
  induction d as [|name c rest IHc IHrest] using dict_nested_ind;
    intros base_path p Hwf.
  - by intros ?%elem_of_nil.
  - apply wf_dict_cons in Hwf as (Hname & Hc & Hrest).
    rewrite plan_cons, !elem_of_app. intros [Hm|Hm] [Ht|Ht].
    + destruct c as [|d'|l|v]; cbn in Hm, Ht, Hc;
        rewrite ?app_nil_r in Hm, Ht.
      * by apply list_elem_of_singleton in Hm.
      * apply elem_of_cons in Ht as [?|Ht]; [done|].
        apply elem_of_cons in Hm as [[= ->]|Hm].
        { by apply plan_target_ne in Ht. }
        apply (IHc d' eq_refl (base_path </> name) p); [|done..].
        rewrite !andb_true_iff in Hc. by destruct Hc as [[_ ?] _].
      * apply elem_of_cons in Ht as [?|Ht]; [done|].
        apply elem_of_cons in Hm as [[= ->]|Hm].
        { apply list_elem_of_fmap in Ht as (f & [= Hf] & _).
          apply (f_equal length) in Hf. unfold truediv in Hf.
          rewrite !length_app in Hf. cbn in Hf. lia. }
        by apply list_elem_of_fmap in Hm as (f & ? & _).
      * by apply elem_of_nil in Hm.
    + apply plan_target_entry in Hm as (s & Hs).
      apply plan_target in Ht as (n' & s' & Hn' & Hs'). cbn in Hs, Hs'.
      rewrite Hs in Hs'. apply app_inv_head in Hs' as [= -> _]. done.
    + apply plan_target_entry in Ht as (s & Hs).
      apply plan_target in Hm as (n' & s' & Hn' & Hs'). cbn in Hs, Hs'.
      rewrite Hs in Hs'. apply app_inv_head in Hs' as [= -> _]. done.
    + by apply (IHrest base_path p).
Qed.

Lemma relocate_relocate b1 b2 c :
  relocate b1 (relocate b2 c) = relocate (b1 ++ b2) c.
Proof. destruct c; cbn; by rewrite app_assoc. Qed.

(** The plan below a base path is the plan below the root, moved. *)
Lemma plan_relocate d :
  ∀ base_path, plan base_path d = relocate base_path <$> plan [] d.
Proof.
  induction d as [|name c rest IHc IHrest] using dict_nested_ind;
    intros base_path; [done|].
  cbn [plan]. rewrite fmap_app, <- IHrest. f_equal.
  destruct c as [|d'|l|v]; cbn [fmap list_fmap relocate]; try done.
  - rewrite (IHc d' eq_refl (base_path </> name)).
    rewrite (IHc d' eq_refl ([] </> name)).
    rewrite <- list_fmap_compose. f_equal.
    apply list_fmap_ext. intros _ c _. cbn. by rewrite relocate_relocate.
  - f_equal. unfold touch_all. rewrite <- list_fmap_compose.
    apply list_fmap_ext. intros _ f _. cbn. unfold truediv.
    by rewrite app_nil_l, <- app_assoc.
Qed.

(** ** What a replay leaves at a path *)

Lemma replay_lookup cs m q n :
  replay cs m !! q = Some n →
  m !! q = Some n ∨
  (m !! q = None ∧ ∃ c, c ∈ cs ∧ target c = q ∧ made c = n).
Proof.
  revert m. induction cs as [|c cs IH]; intros m; cbn; [auto|].
  intros [Hq|(Hq & c' & Hc' & Ht & Hn)]%IH.
  - destruct (effect_lookup c m q) as [Heq|(Hnone & -> & Heq)].
    + left. congruence.
    + right. split; [done|]. exists c. split; [left|]. split; [done|].
      unfold made. congruence.
  - right. split.
    + destruct (m !! q) eqn:Hm; [|done].
      pose proof (lookup_weaken _ _ _ _ Hm (effect_mono c m)). congruence.
    + exists c'. split; [by right|done].
Qed.

Lemma replay_lookup_file cs m q data :
  replay cs m !! q = Some (File data) →
  m !! q = Some (File data) ∨ Touch q ∈ cs.
Proof.
  intros [?|(_ & c & Hc & Ht & Hn)]%replay_lookup; [by left|right].
  destruct c; cbn in *; [done|]. by subst.
Qed.

(** ** When calls return *)

Lemma parent_truediv base_path name : parent (base_path </> name) = base_path.
Proof.
  unfold parent, truediv. rewrite length_app; cbn.
  replace (length base_path + 1 - 1) with (length base_path) by lia.
  by rewrite take_app_length.
Qed.

Lemma blocked_mkdir_None p m :
  m !! parent p = Some Dir → (∀ data, m !! p ≠ Some (File data)) →
  blocked (Mkdir p) m = None.
Proof.
  intros Hpar Hfile. cbn. destruct (m !! p) as [[|data]|] eqn:Hp; [done| |].
  - by destruct (Hfile data).
  - by rewrite Hpar.
Qed.

Lemma blocked_touch_None p m :
  m !! parent p = Some Dir → blocked (Touch p) m = None.
Proof. intros Hpar. cbn. destruct (m !! p); [done|]. by rewrite Hpar. Qed.

Lemma effect_mkdir_lookup p m :
  blocked (Mkdir p) m = None → effect (Mkdir p) m !! p = Some Dir.
Proof.
  cbn. destruct (m !! p) as [[|data]|] eqn:Hp; try done.
  by rewrite lookup_insert_eq.
Qed.

Lemma completed_app cs1 cs2 m :
  completed cs1 m = cs1 →
  completed (cs1 ++ cs2) m = cs1 ++ completed cs2 (replay cs1 m).
Proof.
  revert m. induction cs1 as [|c cs1 IH]; intros m; cbn; [done|].
  destruct (blocked c m); [done|]. intros [= H]. by rewrite IH.
Qed.

Lemma completed_touch_all path l m :
  m !! path = Some Dir →
  completed (touch_all path l) m = touch_all path l.
Proof.
  revert m. induction l as [|f l IH]; intros m Hpath; [done|].
  change (touch_all path (f :: l))
    with (Touch (path </> f) :: touch_all path l).
  cbn [completed].
  rewrite blocked_touch_None by by rewrite parent_truediv.
  f_equal. apply IH. eapply lookup_weaken; [done|]. apply effect_mono.
Qed.

(** On a well-formed description the walk returns as soon as the base
    path is a directory and no path wanted as a directory holds a file. *)
Lemma completed_plan d :
  ∀ base_path m,
    wf_dict d = true →
    m !! base_path = Some Dir →
    (∀ p data, Mkdir p ∈ plan base_path d → m !! p ≠ Some (File data)) →
    completed (plan base_path d) m = plan base_path d.
Proof.
  induction d as [|name c rest IHc IHrest] using dict_nested_ind;
    intros base_path m Hwf Hbase Hfree; [done|].
  pose proof (fun p => plan_consistent _ base_path p Hwf) as Hcons.
  apply wf_dict_cons in Hwf as (Hname & Hc & Hrest).
  rewrite plan_cons in Hfree, Hcons |- *.
  set (E := plan base_path (DCons name c DNil)) in *.
  assert (completed E m = E) as HE.
  { subst E.
    destruct c as [|d'|l|v]; cbn [plan] in Hfree |- *; cbn in Hc;
      cbn [app completed].
    - by rewrite blocked_touch_None by by rewrite parent_truediv.
    - rewrite !app_nil_r.
      assert (blocked (Mkdir (base_path </> name)) m = None) as Hb.
      { apply blocked_mkdir_None; [by rewrite parent_truediv|].
        intros data. apply Hfree. left. }
      rewrite Hb. f_equal. apply (IHc d' eq_refl).
      + rewrite !andb_true_iff in Hc. by destruct Hc as [[_ ?] _].
      + by apply effect_mkdir_lookup.
      + intros p data Hp Hfile.
        destruct (effect_lookup (Mkdir (base_path </> name)) m p)
          as [Heq|(_ & _ & Heq)]; [|congruence].
        rewrite Heq in Hfile. eapply Hfree; [|done].
        right. apply elem_of_app; left. by apply elem_of_app; left.
    - rewrite !app_nil_r.
      assert (blocked (Mkdir (base_path </> name)) m = None) as Hb.
      { apply blocked_mkdir_None; [by rewrite parent_truediv|].
        intros data. apply Hfree. left. }
      rewrite Hb. f_equal. apply completed_touch_all.
      by apply effect_mkdir_lookup.
    - done. }
  rewrite completed_app by done. f_equal. apply IHrest; [done| |].
  - eapply lookup_weaken; [done|]. apply replay_mono.
  - intros p data Hp [Hfile|Ht]%replay_lookup_file.
    + eapply Hfree; [|done]. by apply elem_of_app; right.
    + apply (Hcons p); apply elem_of_app; auto.
Qed.

(** ** Calls that have nothing left to do *)

Lemma settled_blocked c m : settled c m → blocked c m = None.
Proof. destruct c as [p|p]; cbn; [by intros ->|by intros [n ->]]. Qed.

Lemma settled_effect c m : settled c m → effect c m = m.
Proof. destruct c as [p|p]; cbn; [by intros ->|by intros [n ->]]. Qed.

Lemma effect_settled c m : blocked c m = None → settled c (effect c m).
Proof.
  destruct c as [p|p]; cbn; destruct (m !! p) as [[|data]|] eqn:Hp;
    rewrite ?lookup_insert_eq, ?Hp; try done; by eexists.
Qed.

Lemma settled_mono c m m' : m ⊆ m' → settled c m → settled c m'.
Proof.
  intros Hsub. destruct c as [p|p]; cbn.
  - intros Hp. by eapply lookup_weaken.
  - intros [n Hp]. exists n. by eapply lookup_weaken.
Qed.

Lemma completed_settled cs m :
  completed cs m = cs → ∀ c, c ∈ cs → settled c (replay cs m).
Proof.
  revert m. induction cs as [|c cs IH]; intros m; cbn.
  - by intros _ c ?%elem_of_nil.
  - destruct (blocked c m) eqn:Hb; [done|]. intros [= Hcs] c0.
    intros [->|Hc0]%elem_of_cons; [|by apply IH].
    eapply settled_mono; [apply replay_mono|]. by apply effect_settled.
Qed.

Lemma settled_completed cs m :
  (∀ c, c ∈ cs → settled c m) → completed cs m = cs ∧ replay cs m = m.
Proof.
  induction cs as [|c cs IH]; intros Hall; cbn; [done|].
  rewrite settled_blocked, settled_effect by (apply Hall; left).
  destruct IH as [H1 H2].
  { intros c' Hc'. apply Hall. by right. }
  rewrite H1. split; [done|exact H2].
Qed.

(** ** From lists of calls back to the walk *)

Lemma run_calls_Ok_eq cs w :
  completed cs (fs w) = cs →
  run_calls cs w = Ok tt {| fs := replay cs (fs w);
                            log := log w ++ announced cs |}.
Proof.
  intros Hc. pose proof (run_calls_final cs w) as Hfin.
  apply run_calls_Ok in Hc as Hok. rewrite Hc in Hfin.
  destruct (run_calls cs w) as [[] w'|]; [|done]. cbn in Hfin. by subst.
Qed.

Lemma run_calls_Ok_inv cs w w' :
  run_calls cs w = Ok tt w' →
  completed cs (fs w) = cs ∧
  w' = {| fs := replay cs (fs w); log := log w ++ announced cs |}.
Proof.
  intros Hrun. assert (completed cs (fs w) = cs) as Hc.
  { apply run_calls_Ok. by rewrite Hrun. }
  split; [done|]. rewrite run_calls_Ok_eq in Hrun by done. congruence.
Qed.

Lemma create_structure_Ok_inv base_path d w w' :
  create_structure base_path d w = Ok tt w' →
  completed (plan base_path d) (fs w) = plan base_path d ∧
  w' = {| fs := replay (plan base_path d) (fs w);
          log := log w ++ announced (plan base_path d) |}.
Proof. rewrite create_structure_plan. apply run_calls_Ok_inv. Qed.

Lemma create_structure_final base_path d w :
  final (create_structure base_path d w) =
    {| fs := replay (completed (plan base_path d) (fs w)) (fs w);
       log := log w ++ announced (completed (plan base_path d) (fs w)) |}.
Proof. rewrite create_structure_plan. apply run_calls_final. Qed.

Lemma create_structure_succeeds base_path d w :
  wf_dict d = true →
  fs w !! base_path = Some Dir →
  (∀ p data, Mkdir p ∈ plan base_path d → fs w !! p ≠ Some (File data)) →
  create_structure base_path d w =
    Ok tt {| fs := replay (plan base_path d) (fs w);
             log := log w ++ announced (plan base_path d) |}.
Proof.
  intros Hwf Hbase Hfree. rewrite create_structure_plan.
  apply run_calls_Ok_eq. by apply completed_plan.
Qed.

Lemma create_structure_again base_path d w w1 :
  create_structure base_path d w = Ok tt w1 →
  create_structure base_path d w1 =
    Ok tt {| fs := fs w1; log := log w1 ++ announced (plan base_path d) |}.
Proof.
  intros [Hc ->]%create_structure_Ok_inv. cbn [fs log].
  rewrite create_structure_plan.
  destruct (settled_completed (plan base_path d)
              (replay (plan base_path d) (fs w))) as [Hc' Hr'].
  { by apply completed_settled. }
  rewrite run_calls_Ok_eq by done. cbn [fs log]. by rewrite Hr'.
Qed.

(** ** What a walk that returned has built *)

Lemma completed_built cs m c :
  consistent cs → completed cs m = cs → c ∈ cs →
  replay cs m !! target c =
    match c, m !! target c with
    | Mkdir _, _ => Some Dir
    | Touch _, Some n => Some n
    | Touch _, None => Some (File [])
    end.
Proof.
  intros Hcons Hc Hin.
  pose proof (completed_settled _ _ Hc c Hin) as Hset.
  destruct c as [p|p]; cbn in *; [done|].
  destruct (m !! p) as [n|] eqn:Hp.
  - by apply (lookup_weaken _ _ _ _ Hp), replay_mono.
  - destruct Hset as [n Hn]. rewrite Hn.
    apply replay_lookup in Hn as [?|(_ & c & Hc' & Ht & Hmade)];
      [congruence|].
    destruct c as [q|q]; cbn in Ht, Hmade; subst.
    + by destruct (Hcons p).
    + done.
Qed.

Lemma empty_below_free base_path d m :
  empty_below base_path m →
  ∀ c, c ∈ plan base_path d → m !! target c = None.
Proof. intros Hempty c (name & s & _ & ->)%plan_target. apply Hempty. Qed.

Lemma empty_below_no_file base_path d m :
  empty_below base_path m →
  ∀ p data, Mkdir p ∈ plan base_path d → m !! p ≠ Some (File data).
Proof.
  intros Hempty p data Hp.
  pose proof (empty_below_free _ d _ Hempty _ Hp) as Hnone. cbn in Hnone.
  congruence.
Qed.

Lemma create_structure_complete base_path d w w' c :
  wf_dict d = true →
  create_structure base_path d w = Ok tt w' →
  c ∈ plan base_path d →
  fs w' !! target c =
    match c, fs w !! target c with
    | Mkdir _, _ => Some Dir
    | Touch _, Some n => Some n
    | Touch _, None => Some (File [])
    end.
Proof.
  intros Hwf [Hc ->]%create_structure_Ok_inv Hin. cbn [fs].
  apply completed_built; [|done..]. intros p. by apply plan_consistent.
Qed.

Lemma create_structure_fresh base_path d w :
  wf_dict d = true →
  fs w !! base_path = Some Dir →
  empty_below base_path (fs w) →
  ∃ w', create_structure base_path d w = Ok tt w' ∧
        log w' = log w ++ announced (plan base_path d) ∧
        ∀ c, c ∈ plan base_path d → fs w' !! target c = Some (made c).
Proof.
  intros Hwf Hbase Hempty. eexists. split.
  { apply create_structure_succeeds; [done..|].
    by apply empty_below_no_file. }
  split; [done|]. intros c Hc. cbn [fs].
  rewrite (completed_built _ _ c); [| |apply completed_plan|]; try done.
  - pose proof (empty_below_free _ d _ Hempty c Hc) as Hnone.
    destruct c; cbn in *; [done|by rewrite Hnone].
  - intros p. by apply plan_consistent.
  - by apply empty_below_no_file.
Qed.

(** ** A directory comes before what it contains *)

Lemma plan_parent_first d :
  ∀ base_path i c,
    plan base_path d !! i = Some c →
    parent (target c) ≠ base_path →
    ∃ j, j < i ∧ plan base_path d !! j = Some (Mkdir (parent (target c))).
Proof.
  induction d as [|name c rest IHc IHrest] using dict_nested_ind;
    intros base_path i c0; [done|].
  rewrite plan_cons. set (E := plan base_path (DCons name c DNil)).
  destruct (decide (i < length E)) as [Hlt|Hge].
  - rewrite lookup_app_l by done. intros Hi Hpar.
    enough (∃ j, j < i ∧ E !! j = Some (Mkdir (parent (target c0))))
      as (j & Hj & HE).
    { exists j. split; [done|]. rewrite lookup_app_l; [done|lia]. }
    clear Hlt. subst E. revert Hi.
    destruct c as [|d'|l|v]; cbn [plan]; rewrite ?app_nil_r.
    + destruct i as [|i]; [|done]. intros [= <-]. cbn in Hpar.
      by rewrite parent_truediv in Hpar.
    + destruct i as [|i]; cbn [lookup list_lookup].
      { intros [= <-]. cbn [target] in Hpar. by rewrite parent_truediv in Hpar. }
      change ((Mkdir (base_path </> name) :: plan (base_path </> name) d')
                !! S i) with (plan (base_path </> name) d' !! i).
      intros Hi.
      destruct (decide (parent (target c0) = base_path </> name))
        as [->|Hne].
      * exists 0. split; [lia|done].
      * destruct (IHc d' eq_refl _ _ _ Hi Hne) as (j & Hj & Hlook).
        exists (S j). split; [lia|done].
    + destruct i as [|i].
      { intros [= <-]. cbn [target] in Hpar. by rewrite parent_truediv in Hpar. }
      change ((Mkdir (base_path </> name) :: touch_all (base_path </> name) l)
                !! S i) with (touch_all (base_path </> name) l !! i).
      unfold touch_all. rewrite list_lookup_fmap.
      destruct (l !! i) as [f|]; [|done]. intros [= <-]. cbn [target].
      rewrite parent_truediv. exists 0. split; [lia|done].
    + done.
  - rewrite lookup_app_r by lia. intros Hi Hpar.
    destruct (IHrest _ _ _ Hi Hpar) as (j & Hj & Hlook).
    exists (length E + j). split; [lia|].
    rewrite lookup_app_r by lia.
    by replace (length E + j - length E) with j by lia.
Qed.

Lemma plan_mk_app base_path l1 l2 :
  plan base_path (mk (l1 ++ l2))
  = plan base_path (mk l1) ++ plan base_path (mk l2).
Proof.
  induction l1 as [|[name c] l1 IH]; [done|].
  cbn [mk app]. rewrite plan_cons, (plan_cons _ _ _ (mk l1)), IH.
  by rewrite app_assoc.
Qed.

(** ** Text written to standard output *)

Lemma string_app_assoc (s1 s2 s3 : string) :
  (s1 +:+ s2) +:+ s3 = s1 +:+ s2 +:+ s3.
Proof.
  induction s1 as [|a s1 IH]; [reflexivity|].
  change (String a ((s1 +:+ s2) +:+ s3) = String a (s1 +:+ s2 +:+ s3)).
  by f_equal.
Qed.

Lemma stdout_of_app l1 l2 :
  stdout_of (l1 ++ l2) = stdout_of l1 +:+ stdout_of l2.
Proof.
  induction l1 as [|[c|s] l1 IH]; cbn [stdout_of app]; [done..|].
  by rewrite IH, string_app_assoc.
Qed.

Lemma stdout_of_announced cs :
  stdout_of (announced cs) = unlines (notice <$> cs).
Proof.
  induction cs as [|c cs IH]; [done|].
  change (notice c +:+ String newline (stdout_of (announced cs))
          = notice c +:+ String newline (unlines (notice <$> cs))).
  by rewrite IH.
Qed.

Lemma str_absolute p : ∃ s, str p = String "/" s.
Proof. destruct p as [|c r]; cbn; eauto. Qed.

(** ** The filesystem stays a tree *)

Lemma effect_fs_ok c m : fs_ok m → blocked c m = None → fs_ok (effect c m).
Proof.
  intros [Hroot Hpar] Hb.
  assert (∀ p n, m !! p = None → m !! parent p = Some Dir →
                 fs_ok (<[p := n]> m)) as Hins.
  { intros p n Hp Hpp. split.
    - rewrite lookup_insert_ne; [done|]. congruence.
    - intros q n'. destruct (decide (p = q)) as [<-|Hne].
      + intros _. rewrite lookup_insert_ne; [done|]. congruence.
      + rewrite lookup_insert_ne by done. intros Hq%Hpar.
        rewrite lookup_insert_ne; [done|]. congruence. }
  destruct c as [p|p]; cbn in Hb |- *;
    destruct (m !! p) as [[|data]|] eqn:Hp; try done;
    destruct (m !! parent p) as [[|data]|] eqn:Hpp; try done;
    by apply Hins.
Qed.

Lemma completed_fs_ok cs m : fs_ok m → fs_ok (replay (completed cs m) m).
Proof.
  revert m. induction cs as [|c cs IH]; intros m Hok; cbn; [done|].
  destruct (blocked c m) eqn:Hb; [done|]. cbn. by apply IH, effect_fs_ok.
Qed.

Lemma create_structure_fs_ok base_path d w :
  fs_ok (fs w) → fs_ok (fs (final (create_structure base_path d w))).
Proof. rewrite create_structure_final. apply completed_fs_ok. Qed.


(** ** Small facts *)

Lemma prefix_elem_of {A} (l1 l2 : list A) x : l1 `prefix_of` l2 → x ∈ l1 → x ∈ l2.
Proof. intros [k ->] ?. apply elem_of_app; by left. Qed.

Lemma succeeded_Ok (r : result unit) : succeeded r = true → r = Ok tt (final r).
Proof. by destruct r as [[] ?|]. Qed.

Lemma wf_structure : wf_dict structure = true.
Proof. vm_compute. reflexivity. Qed.

Lemma empty_below_root : empty_below [] (fs empty_root).
Proof. intros name s. by apply lookup_singleton_ne. Qed.

Lemma script_unfold cwd d w :
  script cwd d w =
    match create_structure cwd d w with
    | Ok _ w' => Ok tt (record (Printed completion_message) w')
    | Raise e w' => Raise e w'
    end.
Proof. reflexivity. Qed.

Lemma wf_scenario : wf_dict scenario = true.
Proof. reflexivity. Qed.

(** ** The shipped description *)

Example plan_structure_length : length (plan [] structure) = 104.
Proof. vm_compute. reflexivity. Qed.

Example structure_declares_main cwd :
  Touch (cwd ++ ["lib"; "main.dart"]) ∈ plan cwd structure
  ∧ Mkdir (cwd ++ ["lib"; "core"; "widgets"; "buttons"]) ∈ plan cwd structure.
Proof.
  rewrite plan_relocate. split.
  - apply (list_elem_of_fmap_2 (relocate cwd) _ (Touch ["lib"; "main.dart"])).
    apply (bool_decide_unpack _). vm_compute. reflexivity.
  - apply (list_elem_of_fmap_2 (relocate cwd) _
             (Mkdir ["lib"; "core"; "widgets"; "buttons"])).
    apply (bool_decide_unpack _). vm_compute. reflexivity.
Qed.

(** After the script has run on the empty root the nine directories are
    there and nothing lies in them. *)
Example empty_directories_of_structure :
  Forall (fun p => fs (final (main [] empty_root)) !! p = Some Dir)
    empty_directories ∧
  filter (fun e => parent e.1 ∈ empty_directories)
    (map_to_list (fs (final (main [] empty_root)))) = [].
Proof.
  split.
  - repeat constructor.
  - vm_compute. reflexivity.
Qed.

(** * The claims *)

(** ** Completeness *)

(** The claim as stated fails on [occupied]: the run returns, and
    [lib/main.dart], wanted as a file, is still a directory, and
    [lib/app.dart] still holds its three bytes. *)
Lemma completeness_counterexample :
  fs occupied !! [] = Some Dir ∧
  succeeded (create_structure [] structure occupied) = true ∧
  fs (final (create_structure [] structure occupied))
    !! ["lib"; "main.dart"] = Some Dir ∧
  fs (final (create_structure [] structure occupied))
    !! ["lib"; "app.dart"] = Some (File [Byte.x61; Byte.x62; Byte.x63]) ∧
  ¬ completeness_as_stated [] occupied.
Proof.
  split_and!; try (vm_compute; reflexivity).
  intros Hclaim.
  assert (succeeded (create_structure [] structure occupied) = true) as Hok
    by (vm_compute; reflexivity).
  apply succeeded_Ok in Hok.
  specialize (Hclaim _ Hok (Touch ["lib"; "main.dart"])).
  assert (Touch ["lib"; "main.dart"] ∈ plan [] structure) as Hin
    by (apply (bool_decide_unpack _); vm_compute; reflexivity).
  apply Hclaim in Hin. vm_compute in Hin. discriminate.
Qed.

(** C1, as amended.  For the shipped description and any working
    directory [cwd]: after a run of [create_structure] that returned,
    every path the walk wants as a directory (a [Mkdir] of the plan: each
    dict-valued and each list-valued name) holds a directory, and every
    path it wants as a file (a [Touch] of the plan: each [None]-valued
    name and each name of a list) holds what it held before the run when
    it held something, a file with its content or a directory, and an
    empty file when it was free.  When [cwd] is a directory with nothing
    below it, the run does return and every path of the plan holds what
    was declared: a directory or an empty file. *)
Theorem shipped_structure_complete cwd w :
  (∀ w' c,
     create_structure cwd structure w = Ok tt w' →
     c ∈ plan cwd structure →
     fs w' !! target c =
       match c, fs w !! target c with
       | Mkdir _, _ => Some Dir
       | Touch _, Some n => Some n
       | Touch _, None => Some (File [])
       end) ∧
  (fs w !! cwd = Some Dir →
   empty_below cwd (fs w) →
   ∃ w', create_structure cwd structure w = Ok tt w' ∧
         ∀ c, c ∈ plan cwd structure → fs w' !! target c = Some (made c)).
Proof.
  split.
  - intros w' c Hrun Hc.
    by apply (create_structure_complete cwd structure w w' c wf_structure).
  - intros Hcwd Hempty.
    destruct (create_structure_fresh cwd structure w wf_structure Hcwd Hempty)
      as (w' & Hrun & _ & Hbuilt).
    by exists w'.
Qed.

Lemma shipped_structure_complete_witness :
  ∃ w', create_structure [] structure empty_root = Ok tt w' ∧
        fs w' !! ["lib"; "core"; "widgets"; "buttons"] = Some Dir ∧
        fs w' !! ["lib"; "main.dart"] = Some (File []).
Proof.
  destruct (shipped_structure_complete [] empty_root) as [_ Hfresh].
  destruct (Hfresh eq_refl empty_below_root) as (w' & Hrun & Hbuilt).
  exists w'. split; [exact Hrun|]. split.
  - apply (Hbuilt (Mkdir ["lib"; "core"; "widgets"; "buttons"])).
    apply (bool_decide_unpack _). vm_compute. reflexivity.
  - apply (Hbuilt (Touch ["lib"; "main.dart"])).
    apply (bool_decide_unpack _). vm_compute. reflexivity.
Defined.

(** ** Idempotence *)

(** C2.  On a well-formed description, when the base path is a directory
    with nothing below it, the walk returns, a second walk on the result
    returns too and leaves the filesystem as the first one left it; every
    call of the second walk finds its path as it wants it and adds
    nothing. *)
Theorem create_structure_idempotent base_path d w :
  wf_dict d = true →
  fs w !! base_path = Some Dir →
  empty_below base_path (fs w) →
  ∃ w1 w2,
    create_structure base_path d w = Ok tt w1 ∧
    create_structure base_path d w1 = Ok tt w2 ∧
    fs w2 = fs w1 ∧
    ∀ c, c ∈ plan base_path d → effect c (fs w1) = fs w1.
Proof.
  intros Hwf Hbase Hempty.
  destruct (create_structure_fresh base_path d w Hwf Hbase Hempty)
    as (w1 & Hrun & _ & _).
  exists w1. eexists. split; [exact Hrun|].
  split; [by apply create_structure_again with w|]. split; [done|].
  intros c Hc. apply settled_effect.
  apply create_structure_Ok_inv in Hrun as [Hcomp ->].
  by apply completed_settled.
Qed.

Lemma create_structure_idempotent_witness :
  ∃ w1 w2,
    create_structure [] structure empty_root = Ok tt w1 ∧
    create_structure [] structure w1 = Ok tt w2 ∧
    fs w2 = fs w1 ∧
    ∀ c, c ∈ plan [] structure → effect c (fs w1) = fs w1.
Proof.
  apply create_structure_idempotent.
  - vm_compute. reflexivity.
  - reflexivity.
  - exact empty_below_root.
Defined.

(** ** Non-destructiveness *)

(** C3.  Whatever the outcome of the walk, returned or raised: every
    entry that was there before it, a file with its content or a
    directory, is there after it, unchanged; and every entry that is
    there after it was there before, or sits at a path of the plan that
    was free, as the directory or empty file the plan asks for. *)
Theorem create_structure_preserves base_path d w :
  (∀ p n,
     fs w !! p = Some n →
     fs (final (create_structure base_path d w)) !! p = Some n) ∧
  (∀ p n,
     fs (final (create_structure base_path d w)) !! p = Some n →
     fs w !! p = Some n ∨
     (fs w !! p = None ∧
      ∃ c, c ∈ plan base_path d ∧ target c = p ∧ made c = n)).
Proof.
  rewrite create_structure_final. cbn [fs]. split.
  - intros p n Hp. by apply (lookup_weaken _ _ _ _ Hp), replay_mono.
  - intros p n [?|(Hnone & c & Hc & Ht & Hn)]%replay_lookup; [by left|].
    right. split; [done|]. exists c. split; [|done].
    eapply prefix_elem_of; [apply completed_prefix|done].
Qed.

Lemma create_structure_preserves_witness :
  fs (final (create_structure [] structure occupied)) !! ["lib"; "app.dart"]
  = Some (File [Byte.x61; Byte.x62; Byte.x63]).
Proof.
  apply (create_structure_preserves [] structure occupied).
  vm_compute. reflexivity.
Defined.

(** ** Type collisions *)

(** The claim as stated fails on [occupied]: [lib/main.dart], wanted as a
    file, is a directory, and the walk returns. *)
Lemma collision_counterexample :
  Touch ["lib"; "main.dart"] ∈ plan [] structure ∧
  fs occupied !! ["lib"; "main.dart"] = Some Dir ∧
  succeeded (create_structure [] structure occupied) = true ∧
  ¬ collision_as_stated [] structure occupied.
Proof.
  assert (Touch ["lib"; "main.dart"] ∈ plan [] structure) as Hin
    by (apply (bool_decide_unpack _); vm_compute; reflexivity).
  split_and!; [done|reflexivity|vm_compute; reflexivity|].
  intros Hclaim. specialize (Hclaim _ Hin eq_refl).
  vm_compute in Hclaim. discriminate.
Qed.

(** C4, as amended.  When a path the walk wants as a directory holds a
    file, [create_structure] raises; the file is still there, and the
    [mkdir] of that path raises [FileExistsError].  Whenever the walk
    raises, it stops at the first call that fails: the calls of the plan
    before it, and no other, have acted on the filesystem and been logged
    with their notices, the error is the one of that call, and no later
    call is made.  A [touch] of a path that holds a directory raises
    nothing. *)
Theorem collision_halts base_path d w :
  (∀ p data,
     Mkdir p ∈ plan base_path d →
     fs w !! p = Some (File data) →
     ∃ e w', create_structure base_path d w = Raise e w' ∧
             fs w' !! p = Some (File data) ∧
             blocked (Mkdir p) (fs w') = Some (FileExistsError p)) ∧
  (∀ e w',
     create_structure base_path d w = Raise e w' →
     ∃ done c rest,
       plan base_path d = done ++ c :: rest ∧
       blocked c (fs w') = Some e ∧
       fs w' = replay done (fs w) ∧
       log w' = log w ++ announced done) ∧
  (∀ p,
     fs w !! p = Some Dir →
     Path_touch p w = Ok tt (record (Called (Touch p)) w)).
Proof.
  split_and!.
  - intros p data Hin Hp.
    pose proof (create_structure_final base_path d w) as Hfin.
    destruct (create_structure base_path d w) as [[] w'|e w'] eqn:Hrun.
    + apply create_structure_Ok_inv in Hrun as [Hcomp ->].
      pose proof (completed_settled _ _ Hcomp _ Hin) as Hdir. cbn in Hdir.
      pose proof (lookup_weaken _ _ _ _ Hp (replay_mono (plan base_path d) _)).
      congruence.
    + exists e, w'. split; [done|]. cbn in Hfin. subst w'. cbn [fs].
      pose proof (lookup_weaken _ _ _ _ Hp
        (replay_mono (completed (plan base_path d) (fs w)) _)) as Hp'.
      split; [done|]. cbn. by rewrite Hp'.
  - intros e w' Hrun.
    pose proof (create_structure_final base_path d w) as Hfin.
    rewrite Hrun in Hfin. cbn in Hfin.
    rewrite create_structure_plan in Hrun.
    apply run_calls_Raise in Hrun as (c & rest & Hplan & Hb).
    exists (completed (plan base_path d) (fs w)), c, rest.
    by subst w'.
  - intros p Hp. unfold Path_touch, os_utime. by rewrite Hp.
Qed.

Lemma collision_halts_witness :
  ∃ e w', create_structure [] structure lib_is_file = Raise e w' ∧
          fs w' !! ["lib"] = Some (File [Byte.x61]) ∧
          blocked (Mkdir ["lib"]) (fs w') = Some (FileExistsError ["lib"]).
Proof.
  destruct (collision_halts [] structure lib_is_file) as (Hfile & _ & _).
  apply (Hfile ["lib"] [Byte.x61]).
  - apply (bool_decide_unpack _). vm_compute. reflexivity.
  - reflexivity.
Defined.

(** ** Order of the walk *)

(** C5.  The calls a walk makes are a prefix of its plan, the whole plan
    when it returns; the plan depends on the base path and the
    description only.  In it every call on a path that is not directly
    under the base path comes strictly after the [Mkdir] of the directory
    that contains the path; a dict-valued entry gives its [Mkdir], then
    the plan of its children, then the plan of the entries after it; a
    list-valued entry gives its [Mkdir], then the [Touch] of each name of
    the list in order, then the plan of the entries after it; and the
    plan of a dict is the concatenation of the plans of its items in
    insertion order. *)
Theorem create_structure_preorder base_path d w :
  (∃ cs,
     cs `prefix_of` plan base_path d ∧
     log (final (create_structure base_path d w)) = log w ++ announced cs ∧
     (succeeded (create_structure base_path d w) = true →
      cs = plan base_path d) ∧
     ∀ i c,
       cs !! i = Some c →
       parent (target c) ≠ base_path →
       ∃ j, j < i ∧ cs !! j = Some (Mkdir (parent (target c)))) ∧
  (∀ name d' rest,
     plan base_path (DCons name (CDict d') rest)
     = Mkdir (base_path </> name) :: plan (base_path </> name) d'
       ++ plan base_path rest) ∧
  (∀ name l rest,
     plan base_path (DCons name (CList l) rest)
     = Mkdir (base_path </> name) :: touch_all (base_path </> name) l
       ++ plan base_path rest) ∧
  (∀ l1 l2,
     plan base_path (mk (l1 ++ l2))
     = plan base_path (mk l1) ++ plan base_path (mk l2)).
Proof.
  split_and!; [|done..|apply plan_mk_app].
  exists (completed (plan base_path d) (fs w)).
  pose proof (completed_prefix (plan base_path d) (fs w)) as Hpre.
  split_and!; [done| | |].
  - by rewrite create_structure_final.
  - rewrite create_structure_plan. apply run_calls_Ok.
  - intros i c Hi Hpar.
    pose proof (prefix_lookup_Some _ _ _ _ Hi Hpre) as Hplan.
    destruct (plan_parent_first _ _ _ _ Hplan Hpar) as (j & Hj & Hlook).
    exists j. split; [done|].
    destruct Hpre as [k Hk]. rewrite Hk in Hlook.
    rewrite lookup_app_l in Hlook; [done|].
    apply lookup_lt_Some in Hi. lia.
Qed.

Lemma create_structure_preorder_witness :
  ∃ j, j < 2 ∧
       plan [] structure !! j = Some (Mkdir ["lib"; "core"]).
Proof.
  destruct (create_structure_preorder [] structure empty_root)
    as [(cs & Hpre & _ & Hall & Hfirst) _].
  rewrite <- (Hall eq_refl).
  apply (Hfirst 2 (Mkdir ["lib"; "core"; "constants"])).
  - rewrite (Hall eq_refl). reflexivity.
  - discriminate.
Defined.

(** ** Standard output *)

(** The claim as stated fails on [empty_root]: the script returns and
    its output has an empty line before the completion line. *)
Lemma output_counterexample :
  succeeded (main [] empty_root) = true ∧
  splitlines (stdout (final (main [] empty_root)))
  = (notice <$> plan [] structure) ++ [""; completion_line] ∧
  ¬ output_as_stated [] empty_root.
Proof.
  split_and!; [vm_compute; reflexivity..|].
  intros Hclaim. specialize (Hclaim ltac:(vm_compute; reflexivity)).
  apply (f_equal length) in Hclaim. vm_compute in Hclaim. discriminate.
Qed.

(** C6, as amended.  The script logs, for each call that returned and in
    the order of the plan, the call and then its notice, and nothing else
    but, when every call returned, the completion message at the end.
    Standard output is the notices, one per line, followed on success by
    an empty line and the completion line.  A notice is
    [Created directory: ] or [Created file: ] and the absolute path. *)
Theorem script_output cwd d w :
  (∃ cs,
     cs `prefix_of` plan cwd d ∧
     (succeeded (script cwd d w) = true ↔ cs = plan cwd d) ∧
     log (final (script cwd d w))
     = log w ++ announced cs
       ++ (if succeeded (script cwd d w)
           then [Printed completion_message] else []) ∧
     stdout (final (script cwd d w))
     = stdout w +:+ unlines (notice <$> cs)
       +:+ (if succeeded (script cwd d w)
            then unlines [""; completion_line] else "")) ∧
  (∀ c, notice c = match c with
                   | Mkdir _ => "Created directory: "
                   | Touch _ => "Created file: "
                   end +:+ str (target c)) ∧
  (∀ p, ∃ s, str p = String "/" s).
Proof.
  split_and!; [|by intros []|apply str_absolute].
  exists (completed (plan cwd d) (fs w)).
  pose proof (create_structure_final cwd d w) as Hfin.
  pose proof (run_calls_Ok (plan cwd d) w) as Hok.
  rewrite <- create_structure_plan in Hok.
  assert (succeeded (script cwd d w)
          = succeeded (create_structure cwd d w)) as Hsucc.
  { rewrite script_unfold. by destruct (create_structure cwd d w). }
  assert (log (final (script cwd d w))
          = log w ++ announced (completed (plan cwd d) (fs w))
            ++ (if succeeded (script cwd d w)
                then [Printed completion_message] else [])) as Hlog.
  { rewrite Hsucc, script_unfold.
    destruct (create_structure cwd d w) as [[] w'|e w']; cbn in Hfin |- *;
      subst w'; cbn; by rewrite ?app_nil_r, <- ?app_assoc. }
  split_and!; [apply completed_prefix|by rewrite Hsucc|done|].
  unfold stdout. rewrite Hlog, !stdout_of_app, stdout_of_announced.
  by destruct (succeeded (script cwd d w)).
Qed.

Lemma script_output_witness :
  ∃ cs,
    cs `prefix_of` plan [] scenario ∧
    (succeeded (script [] scenario empty_root) = true
     ↔ cs = plan [] scenario) ∧
    log (final (script [] scenario empty_root))
    = log empty_root ++ announced cs
      ++ (if succeeded (script [] scenario empty_root)
          then [Printed completion_message] else []) ∧
    stdout (final (script [] scenario empty_root))
    = stdout empty_root +:+ unlines (notice <$> cs)
      +:+ (if succeeded (script [] scenario empty_root)
           then unlines [""; completion_line] else "").
Proof. apply (script_output [] scenario empty_root). Defined.

(** ** The scenario of the specification *)

(** C7.  For the description [{"a": {"b": ["c.txt"]}}] and a working
    directory with nothing below it, the script returns; [a] and [a/b]
    are directories, [a/b/c.txt] is a file of size 0, and the output is
    the three notices, an empty line and the completion line. *)
Theorem scenario_run cwd w :
  fs w !! cwd = Some Dir →
  empty_below cwd (fs w) →
  ∃ w',
    script cwd scenario w = Ok tt w' ∧
    fs w' !! (cwd </> "a") = Some Dir ∧
    fs w' !! (cwd </> "a" </> "b") = Some Dir ∧
    fs w' !! (cwd </> "a" </> "b" </> "c.txt") = Some (File []) ∧
    file_size (fs w') (cwd </> "a" </> "b" </> "c.txt") = Some 0 ∧
    log w' = log w ++
      [Called (Mkdir (cwd </> "a"));
       Printed (directory_notice (cwd </> "a"));
       Called (Mkdir (cwd </> "a" </> "b"));
       Printed (directory_notice (cwd </> "a" </> "b"));
       Called (Touch (cwd </> "a" </> "b" </> "c.txt"));
       Printed (file_notice (cwd </> "a" </> "b" </> "c.txt"));
       Printed completion_message] ∧
    stdout w' = stdout w +:+
      unlines [directory_notice (cwd </> "a");
               directory_notice (cwd </> "a" </> "b");
               file_notice (cwd </> "a" </> "b" </> "c.txt");
               "";
               completion_line].
Proof.
  intros Hcwd Hempty.
  destruct (create_structure_fresh cwd scenario w wf_scenario Hcwd Hempty)
    as (w1 & Hrun & Hlog & Hbuilt).
  exists (record (Printed completion_message) w1).
  assert (fs w1 !! (cwd </> "a" </> "b" </> "c.txt") = Some (File []))
    as Hfile.
  { apply (Hbuilt (Touch (cwd </> "a" </> "b" </> "c.txt"))).
    cbn. set_solver. }
  assert (log (record (Printed completion_message) w1) = log w ++
      [Called (Mkdir (cwd </> "a"));
       Printed (directory_notice (cwd </> "a"));
       Called (Mkdir (cwd </> "a" </> "b"));
       Printed (directory_notice (cwd </> "a" </> "b"));
       Called (Touch (cwd </> "a" </> "b" </> "c.txt"));
       Printed (file_notice (cwd </> "a" </> "b" </> "c.txt"));
       Printed completion_message]) as Hlog'.
  { cbn [record log]. rewrite Hlog. cbn. by rewrite <- app_assoc. }
  split_and!.
  - rewrite script_unfold. by rewrite Hrun.
  - apply (Hbuilt (Mkdir (cwd </> "a"))). cbn. set_solver.
  - apply (Hbuilt (Mkdir (cwd </> "a" </> "b"))). cbn. set_solver.
  - done.
  - unfold file_size. cbn [record fs]. by rewrite Hfile.
  - done.
  - unfold stdout. rewrite Hlog', stdout_of_app. reflexivity.
Qed.

Lemma scenario_run_witness :
  ∃ w',
    script [] scenario empty_root = Ok tt w' ∧
    fs w' !! ["a"] = Some Dir ∧
    fs w' !! ["a"; "b"] = Some Dir ∧
    fs w' !! ["a"; "b"; "c.txt"] = Some (File []) ∧
    file_size (fs w') ["a"; "b"; "c.txt"] = Some 0 ∧
    log w' =
      [Called (Mkdir ["a"]);
       Printed "Created directory: /a";
       Called (Mkdir ["a"; "b"]);
       Printed "Created directory: /a/b";
       Called (Touch ["a"; "b"; "c.txt"]);
       Printed "Created file: /a/b/c.txt";
       Printed completion_message] ∧
    stdout w' =
      unlines ["Created directory: /a";
               "Created directory: /a/b";
               "Created file: /a/b/c.txt";
               "";
               "Directory structure created successfully!"].
Proof. apply (scenario_run [] empty_root eq_refl empty_below_root). Defined.

Example scenario_lines :
  splitlines (stdout (final (script [] scenario empty_root)))
  = ["Created directory: /a";
     "Created directory: /a/b";
     "Created file: /a/b/c.txt";
     "";
     "Directory structure created successfully!"].
Proof. vm_compute. reflexivity. Qed.

(** ** A file entry on a directory *)

(** C8.  When the path of a [None]-valued entry, a single path
    component, holds a directory on which [os.utime] succeeds (the model
    grants it on every entry; a real system asks for ownership of the
    directory or the right to write to it), [path.touch()] returns
    without an error.  The walk of the entry alone returns, with the
    filesystem unchanged and the call and its notice logged.  Before
    other entries, the walk is the calls of the plan of these entries,
    made from that same world: its log is the earlier log, the [touch]
    and its notice, and then the calls of that plan that returned with
    their notices, and it returns exactly when all of them returned.  The
    path holds a directory when the walk ends. *)
Theorem touch_on_directory base_path name rest w :
  simple_name name = true →
  fs w !! (base_path </> name) = Some Dir →
  os_utime (base_path </> name) (fs w) = None →
  Path_touch (base_path </> name) w
  = Ok tt (record (Called (Touch (base_path </> name))) w) ∧
  create_structure base_path (DCons name CNone DNil) w
  = Ok tt {| fs := fs w;
             log := log w ++ [Called (Touch (base_path </> name));
                              Printed (file_notice (base_path </> name))] |} ∧
  create_structure base_path (DCons name CNone rest) w
  = run_calls (plan base_path rest)
      {| fs := fs w;
         log := log w ++ [Called (Touch (base_path </> name));
                          Printed (file_notice (base_path </> name))] |} ∧
  (∃ cs,
     cs `prefix_of` plan base_path rest ∧
     log (final (create_structure base_path (DCons name CNone rest) w))
     = log w ++ [Called (Touch (base_path </> name));
                 Printed (file_notice (base_path </> name))]
       ++ announced cs ∧
     (succeeded (create_structure base_path (DCons name CNone rest) w) = true
      ↔ cs = plan base_path rest)) ∧
  fs (final (create_structure base_path (DCons name CNone rest) w))
    !! (base_path </> name) = Some Dir.
Proof.
  intros _ Hdir Hutime.
  assert (Path_touch (base_path </> name) w
          = Ok tt (record (Called (Touch (base_path </> name))) w)) as Ht.
  { unfold Path_touch. by rewrite Hutime. }
  set (w1 := {| fs := fs w;
                log := log w ++ [Called (Touch (base_path </> name));
                                 Printed (file_notice (base_path </> name))] |}).
  assert (∀ rest', create_structure base_path (DCons name CNone rest') w
                   = run_calls (plan base_path rest') w1) as Hwalk.
  { intros rest'. rewrite <- create_structure_plan.
    cbn [create_structure]. unfold bind at 1 2. rewrite Ht.
    unfold print, record; cbn. by rewrite <- app_assoc. }
  split_and!; [done|by rewrite Hwalk|by rewrite Hwalk| |].
  - exists (completed (plan base_path rest) (fs w)).
    split_and!; [apply completed_prefix| |].
    + rewrite Hwalk, run_calls_final. unfold w1. cbn [fs log].
      by rewrite <- app_assoc.
    + rewrite Hwalk. apply (run_calls_Ok _ w1).
  - rewrite create_structure_final. cbn [fs].
    by apply (lookup_weaken _ _ _ _ Hdir), replay_mono.
Qed.

Lemma touch_on_directory_witness :
  create_structure ["lib"] (mk [("main.dart", CNone)]) occupied
  = Ok tt {| fs := fs occupied;
             log := [Called (Touch ["lib"; "main.dart"]);
                     Printed "Created file: /lib/main.dart"] |} ∧
  fs (final (create_structure ["lib"]
               (mk [("main.dart", CNone); ("app.dart", CNone)]) occupied))
    !! ["lib"; "main.dart"] = Some Dir.
Proof.
  destruct (touch_on_directory ["lib"] "main.dart"
              (mk [("app.dart", CNone)]) occupied eq_refl eq_refl eq_refl)
    as (_ & Halone & _ & _ & Hdir).
  split; [exact Halone|exact Hdir].
Defined.

(** ** Values of other types *)

(** C9.  An entry whose value is neither [None], a dict nor a list does
    nothing: alone it returns with the world unchanged, nothing created
    and nothing printed; before other entries the walk is the walk of
    these entries; it adds no call to the plan. *)
Theorem other_values_skipped base_path name v rest w :
  create_structure base_path (DCons name (COther v) DNil) w = Ok tt w ∧
  create_structure base_path (DCons name (COther v) rest) w
  = create_structure base_path rest w ∧
  plan base_path (DCons name (COther v) rest) = plan base_path rest.
Proof. done. Qed.

(** ** Directories with an empty list *)

(** C10.  For an entry whose value is the empty list and whose name is
    a single path component, when the base path is a directory and the
    path of the entry does not hold a file: the walk of the entry alone
    returns, the filesystem is the one before with a directory at the
    path of the entry, and the log has grown by the [mkdir] and its one
    notice, nothing else.  Before other entries, the walk is the calls of
    the plan of these entries, made from that same world, with the same
    two log entries first.  After the walk of the entry alone the path
    holds a directory and every other path holds what it held: no file
    has been created. *)
Theorem empty_list_directory base_path name rest w :
  simple_name name = true →
  fs w !! base_path = Some Dir →
  (∀ data, fs w !! (base_path </> name) ≠ Some (File data)) →
  create_structure base_path (DCons name (CList []) DNil) w
  = Ok tt {| fs := <[base_path </> name := Dir]> (fs w);
             log := log w ++
               [Called (Mkdir (base_path </> name));
                Printed (directory_notice (base_path </> name))] |} ∧
  create_structure base_path (DCons name (CList []) rest) w
  = run_calls (plan base_path rest)
      {| fs := <[base_path </> name := Dir]> (fs w);
         log := log w ++
           [Called (Mkdir (base_path </> name));
            Printed (directory_notice (base_path </> name))] |} ∧
  (∃ cs,
     cs `prefix_of` plan base_path rest ∧
     log (final (create_structure base_path (DCons name (CList []) rest) w))
     = log w ++ [Called (Mkdir (base_path </> name));
                 Printed (directory_notice (base_path </> name))]
       ++ announced cs ∧
     (succeeded (create_structure base_path (DCons name (CList []) rest) w)
      = true ↔ cs = plan base_path rest)) ∧
  fs (final (create_structure base_path (DCons name (CList []) DNil) w))
    !! (base_path </> name) = Some Dir ∧
  ∀ q, q ≠ base_path </> name →
       fs (final (create_structure base_path (DCons name (CList []) DNil) w))
         !! q = fs w !! q.
Proof.
  intros _ Hbase Hfree.
  assert (blocked (Mkdir (base_path </> name)) (fs w) = None) as Hb.
  { apply blocked_mkdir_None; [by rewrite parent_truediv|done]. }
  assert (effect (Mkdir (base_path </> name)) (fs w)
          = <[base_path </> name := Dir]> (fs w)) as Heff.
  { cbn. destruct (fs w !! (base_path </> name)) as [[|data]|] eqn:Hp;
      [by rewrite insert_id|by destruct (Hfree data)|done]. }
  set (w1 := {| fs := <[base_path </> name := Dir]> (fs w);
                log := log w ++
                  [Called (Mkdir (base_path </> name));
                   Printed (directory_notice (base_path </> name))] |}).
  assert (∀ rest', create_structure base_path (DCons name (CList []) rest') w
                   = run_calls (plan base_path rest') w1) as Hwalk.
  { intros rest'. rewrite create_structure_plan.
    cbn [plan touch_all fmap list_fmap app].
    by rewrite run_calls_cons, Hb, Heff. }
  split_and!; [by rewrite Hwalk|by rewrite Hwalk| | |].
  - exists (completed (plan base_path rest) (fs w1)).
    split_and!; [apply completed_prefix| |].
    + rewrite Hwalk, run_calls_final. unfold w1. cbn [fs log].
      by rewrite <- app_assoc.
    + rewrite Hwalk. apply (run_calls_Ok _ w1).
  - rewrite Hwalk.
    change (<[base_path </> name := Dir]> (fs w) !! (base_path </> name)
            = Some Dir).
    apply lookup_insert_eq.
  - intros q Hq. rewrite Hwalk.
    change (<[base_path </> name := Dir]> (fs w) !! q = fs w !! q).
    by apply lookup_insert_ne.
Qed.

Lemma empty_list_directory_witness :
  create_structure [] (mk [("buttons", CList [])]) empty_root
  = Ok tt {| fs := <[ ["buttons"] := Dir ]> (fs empty_root);
             log := [Called (Mkdir ["buttons"]);
                     Printed "Created directory: /buttons"] |} ∧
  fs (final (create_structure [] (mk [("buttons", CList [])]) empty_root))
    !! ["buttons"] = Some Dir.
Proof.
  destruct (empty_list_directory [] "buttons" DNil empty_root eq_refl eq_refl)
    as (Halone & _ & _ & Hdir & _).
  - intros data. discriminate.
  - split; [exact Halone|exact Hdir].
Defined.

(** * Further properties of the walk *)

(** ** Lists of calls, once more *)

Lemma completed_idem cs m : completed (completed cs m) m = completed cs m.
Proof.
  revert m. induction cs as [|c cs IH]; intros m; cbn; [done|].
  destruct (blocked c m) eqn:Hb; [done|]. cbn. by rewrite Hb, IH.
Qed.

Lemma completed_next cs m :
  completed cs m = cs ∨
  ∃ c rest e, cs = completed cs m ++ c :: rest
              ∧ blocked c (replay (completed cs m) m) = Some e.
Proof.
  revert m. induction cs as [|c cs IH]; intros m; cbn; [by left|].
  destruct (blocked c m) as [e|] eqn:Hb.
  - right. by exists c, cs, e.
  - destruct (IH (effect c m)) as [->|(c' & rest & e & Hcs & Hc')];
      [by left|right].
    exists c', rest, e. split; [|done]. cbn. by f_equal.
Qed.

Lemma completed_done_settled cs m c :
  c ∈ completed cs m → settled c (replay (completed cs m) m).
Proof. apply completed_settled, completed_idem. Qed.

Lemma completed_again cs m :
  completed cs (replay (completed cs m) m) = completed cs m ∧
  replay (completed cs m) (replay (completed cs m) m)
  = replay (completed cs m) m.
Proof.
  destruct (settled_completed (completed cs m) (replay (completed cs m) m))
    as [Hc Hr]; [by intros c; apply completed_done_settled|].
  split; [|done].
  destruct (completed_next cs m) as [Heq|(c & rest & e & Hcs & Hb)].
  - by rewrite Heq in Hc |- *.
  - rewrite Hcs at 1. rewrite completed_app, Hr by done.
    cbn. by rewrite Hb, app_nil_r.
Qed.









(** ** Running again *)

(** X1.  A second walk of the same description, started where the first
    one ended, ends as the first did: it returns when the first
    returned and raises the same error when the first raised; it leaves
    the filesystem as it found it; and it logs once more the calls and
    notices of the first, although it creates nothing. *)
Theorem rerun_same_outcome base_path d w :
  ∃ cs,
    log (final (create_structure base_path d w)) = log w ++ announced cs ∧
    log (final (create_structure base_path d
                  (final (create_structure base_path d w))))
    = log w ++ announced cs ++ announced cs ∧
    fs (final (create_structure base_path d
                 (final (create_structure base_path d w))))
    = fs (final (create_structure base_path d w)) ∧
    succeeded (create_structure base_path d
                 (final (create_structure base_path d w)))
    = succeeded (create_structure base_path d w) ∧
    ∀ e w1,
      create_structure base_path d w = Raise e w1 →
      ∃ w2, create_structure base_path d w1 = Raise e w2.
Proof.
  exists (completed (plan base_path d) (fs w)).
  set (cs := plan base_path d).
  destruct (completed_again cs (fs w)) as [Hc Hr].
  assert (final (create_structure base_path d
                   (final (create_structure base_path d w)))
          = {| fs := replay (completed cs (fs w)) (fs w);
               log := (log w ++ announced (completed cs (fs w)))
                      ++ announced (completed cs (fs w)) |}) as Hfin2.
  { rewrite (create_structure_final _ _ (final _)).
    rewrite create_structure_final. cbn [fs log]. fold cs.
    by rewrite Hc, Hr. }
  assert (succeeded (create_structure base_path d
                       (final (create_structure base_path d w)))
          = succeeded (create_structure base_path d w)) as Hsucc.
  { apply eq_true_iff_eq.
    rewrite !create_structure_plan, !run_calls_Ok, run_calls_final.
    cbn [fs]. fold cs. rewrite Hc. clear.
    split; [|by intros ->]. intros Heq. by rewrite Heq. }
  split_and!.
  - by rewrite create_structure_final.
  - by rewrite Hfin2, <- app_assoc.
  - by rewrite Hfin2, create_structure_final.
  - done.
  - intros e w1 Hrun. rewrite Hrun in Hsucc, Hfin2. cbn in Hsucc, Hfin2.
    pose proof (create_structure_final base_path d w) as Hfin1.
    rewrite Hrun in Hfin1. cbn in Hfin1. fold cs in Hfin1.
    destruct (create_structure base_path d w1) as [[] w2|e2 w2] eqn:Hrun2;
      [done|].
    exists w2. f_equal. cbn in Hfin2.
    rewrite create_structure_plan in Hrun, Hrun2. fold cs in Hrun, Hrun2.
    apply run_calls_Raise in Hrun as (c & rest & Hcs & Hb).
    apply run_calls_Raise in Hrun2 as (c2 & rest2 & Hcs2 & Hb2).
    assert (fs w1 = replay (completed cs (fs w)) (fs w)) as Hw1
      by by rewrite Hfin1.
    assert (fs w2 = fs w1) as Hw2 by by rewrite Hfin2, Hw1.
    rewrite Hw1, Hc in Hcs2. rewrite Hcs in Hcs2 at 1.
    apply app_inv_head in Hcs2 as [= <- _]. congruence.
Qed.

Lemma rerun_same_outcome_witness :
  ∃ w2,
    create_structure [] structure lib_is_file
    = Raise (FileExistsError ["lib"]) w2.
Proof.
  destruct (rerun_same_outcome [] structure lib_is_file)
    as (cs & _ & _ & _ & _ & Hraise).
  apply (Hraise (FileExistsError ["lib"]) lib_is_file).
  vm_compute. reflexivity.
Defined.

(** ** The errors of a walk *)





(** ** Nothing outside the base path *)



(** ** Two descriptions in a row *)

(** X6.  Walking a dict whose items are those of one dict followed by
    those of another is walking the first and then, when that walk
    returned, the second; an error of the first stops both. *)
Theorem walk_app base_path l1 l2 w :
  create_structure base_path (mk (l1 ++ l2)) w
  = (create_structure base_path (mk l1) ;;
     create_structure base_path (mk l2)) w.
Proof.
  revert w. induction l1 as [|[name c] l1 IH]; intros w; [done|].
  cbn [app mk create_structure]. rewrite bind_assoc.
  by apply bind_ext_r.
Qed.

(** ** The order of the items *)



(** ** The paths after a walk *)


